(** * Fund NAV calculator (Nav_Calc.py): a shallow embedding

    The pipeline of [NAVCalculator] is embedded as pure functions over the
    four record collections.  Conventions:

    - a date (a pandas Timestamp normalised to midnight) is its day number,
      a [Z]; [NaT] is [None];
    - a number (a float64 cell) is an exact rational [Qc]: rounding is left
      out, and the numeric fields of the input records are resolved, finite
      numbers.  A missing cell ([NaN]) is an absent key of a row or [None]
      in a series.  The only place where the pipeline can produce an
      infinity is the final division, whose result has its own type [fval];
    - a Series whose index is known to be unique (the result of a
      [groupby(...).sum()]) is a [gmap] from label to value; a pivoted
      frame is a [gmap] from date to row, a row being a [gmap] from ticker
      to value;
    - every frame and series that has been reindexed onto [all_dates] is a
      list aligned with [all_dates]: position [i] belongs to the [i]-th
      canonical date.  All binary operations of [compute_nav] are between
      such operands, so label alignment is positional;
    - the column labels of a frame are a [gset]: pandas keeps them sorted,
      which only fixes the order of the commutative row sum;
    - the exceptions a call can raise are values of [exn]. *)

From Stdlib Require Import QArith Qcanon.
From stdpp Require Import gmap strings list numbers.

(** ** Exceptions and results *)

Inductive exn :=
  | AttributeError (msg : string)
  | ValueError (msg : string).

Inductive result (A : Type) :=
  | Ok (a : A)
  | Raise (e : exn).
Arguments Ok {A} a.
Arguments Raise {A} e.

#[global] Instance exn_eq_dec : EqDecision exn.
Proof. solve_decision. Defined.

#[global] Instance result_ret : MRet result := λ A a, Ok a.
#[global] Instance result_bind : MBind result := λ A B f m,
  match m with
  | Ok a => f a
  | Raise e => Raise e
  end.

(** The messages of the exceptions the pipeline can meet. *)
Definition dt_accessor_error : exn :=
  AttributeError "Can only use .dt accessor with datetimelike values".
Definition nat_range_error : exn :=
  ValueError "Neither `start` nor `end` can be NaT".
Definition duplicate_entries_error : exn :=
  ValueError "Index contains duplicate entries, cannot reshape".
Definition duplicate_labels_error : exn :=
  ValueError "cannot reindex on an axis with duplicate labels".
(** Raised by [prepare_units] itself (line 86). *)
Definition units_missing_error : exn :=
  ValueError "Units outstanding missing for some dates".

(** ** Input records *)

Module Holding.
Record t := { date : Z; ticker : string; quantity : Qc }.
End Holding.

Module Price.
Record t := { date : Z; ticker : string; close : Qc }.
End Price.

Module CashFlow.
(** [type] is [None] when the label cell is empty ([na=False] below). *)
Record t := { date : Z; amount : Qc; type : option string }.
End CashFlow.

Module Units.
Record t := { date : Z; units_outstanding : Qc }.
End Units.

(** The attributes of a [NAVCalculator] after [load_data]. *)
Record NAVCalculator := {
  holdings : list Holding.t;
  prices : list Price.t;
  cashflows : list CashFlow.t;
  units : list Units.t;
  all_dates : list Z
}.

(** ** Output rows *)

(** The result of the float division [net_assets / units_series]. *)
Inductive fval :=
  | Fin (q : Qc)
  | PosInf
  | NegInf
  | NaN.

Module NavRow.
Record t := {
  date : Z;
  assets_from_securities : Qc;
  cash_balance : Qc;
  cumulative_dividends : Qc;
  liabilities : Qc;
  net_assets : Qc;
  units_outstanding : Qc;
  nav_per_unit : fval
}.
End NavRow.

(** ** Frames *)

(** The result of [DataFrame.pivot]: one row per distinct date. *)
Record Pivot := {
  pv_columns : gset string;
  pv_rows : gmap Z (gmap string Qc)
}.

(** A frame reindexed onto [all_dates]. *)
Record Frame := {
  columns : gset string;
  rows : list (gmap string Qc)
}.

Section pandas.
Local Open Scope Qc_scope.

(** *** Timestamps, [min], [max] and [date_range] *)

(** [Series.min()] and [Series.max()] of a date column: [NaT] when the
    column is empty. *)
Definition series_min (l : list Z) : option Z :=
  foldr (λ x acc, Some (from_option (Z.min x) x acc)) None l.
Definition series_max (l : list Z) : option Z :=
  foldr (λ x acc, Some (from_option (Z.max x) x acc)) None l.

(** Comparison of timestamps: any comparison with [NaT] is [False]. *)
Definition ts_lt (a b : option Z) : bool :=
  match a, b with
  | Some x, Some y => bool_decide (x < y)%Z
  | _, _ => false
  end.

(** Python's builtin [min] keeps its first item until a later one is
    strictly smaller; [max] until a later one is strictly greater. *)
Definition py_min (first : option Z) (rest : list (option Z)) : option Z :=
  foldl (λ cur x, if ts_lt x cur then x else cur) first rest.
Definition py_max (first : option Z) (rest : list (option Z)) : option Z :=
  foldl (λ cur x, if ts_lt cur x then x else cur) first rest.

(** [pd.date_range(start, end, freq="D")]. *)
Definition date_range (start stop : option Z) : result (list Z) :=
  match start, stop with
  | Some lo, Some hi => Ok (seqZ lo (hi - lo + 1))
  | _, _ => Raise nat_range_error
  end.

(** *** Grouping and pivoting *)

(** [groupby(keys)[col].sum()]: the sum of the values of each key. *)
Definition groupby_sum {K} `{Countable K} (l : list (K * Qc)) : gmap K Qc :=
  foldr (λ kv m, <[kv.1 := kv.2 + default 0 (m !! kv.1)]> m) ∅ l.

(** [DataFrame.pivot(index="date", columns="ticker", values=...)] on rows
    (date, ticker, value): two rows with the same (date, ticker) make it
    raise. *)
Definition pivot_rows (recs : list (Z * string * Qc))
    : gmap Z (gmap string Qc) :=
  foldr (λ r m, <[r.1.1 := <[r.1.2 := r.2]> (default ∅ (m !! r.1.1))]> m)
    ∅ recs.

Definition pivot (recs : list (Z * string * Qc)) : result Pivot :=
  if decide (NoDup (recs.*1)) then
    Ok {| pv_columns := list_to_set (recs.*1.*2);
          pv_rows := pivot_rows recs |}
  else Raise duplicate_entries_error.

(** [pivot.reindex(dates)]: the row of each date, all-missing when the
    date has none. *)
Definition reindex (pv : Pivot) (dates : list Z) : Frame :=
  {| columns := pv_columns pv;
     rows := (λ d, default ∅ (pv_rows pv !! d)) <$> dates |}.

(** [fillna(method="ffill")]: a missing cell takes the value of the
    nearest resolved cell above it in its column. *)
Fixpoint ffill_rows (prev : gmap string Qc) (rs : list (gmap string Qc))
    : list (gmap string Qc) :=
  match rs with
  | [] => []
  | r :: rs' => let r' := r ∪ prev in r' :: ffill_rows r' rs'
  end.
Definition ffill (f : Frame) : Frame :=
  {| columns := columns f; rows := ffill_rows ∅ (rows f) |}.

(** The row that holds [v] in every column of [cols]. *)
Definition const_row (cols : gset string) (v : Qc) : gmap string Qc :=
  gset_to_gmap v cols.

(** [fillna(v)]. *)
Definition fillna (v : Qc) (f : Frame) : Frame :=
  {| columns := columns f;
     rows := (λ r, r ∪ const_row (columns f) v) <$> rows f |}.

(** [reindex(columns=cols, fill_value=v)]: the columns of [cols] the
    frame lacks are created holding [fill_value] (missing when there is
    none); the cells of existing columns are kept as they are. *)
Definition reindex_columns (cols : gset string) (fill_value : option Qc)
    (f : Frame) : Frame :=
  {| columns := cols;
     rows := (λ r,
       filter (λ kv, kv.1 ∈ cols) r ∪
       from_option (const_row (cols ∖ columns f)) ∅ fill_value) <$> rows f |}.

(** Elementwise product: missing when either factor is. *)
Definition frame_mul (a b : Frame) : Frame :=
  {| columns := columns a ∪ columns b;
     rows := zip_with (intersection_with (λ x y, Some (x * y))) (rows a) (rows b) |}.

Definition sum_list (l : list Qc) : Qc := foldr Qcplus 0 l.

(** [sum(axis=1)]: missing cells are skipped. *)
Definition sum_axis1 (f : Frame) : list Qc :=
  (λ r, sum_list ((λ t, default 0 (r !! t)) <$> elements (columns f))) <$> rows f.

(** *** Series *)

Definition series_reindex (s : gmap Z Qc) (dates : list Z) : list (option Qc) :=
  (λ d, s !! d) <$> dates.

(** [Series.reindex] on a series whose index may repeat a label. *)
Definition series_reindex_list (s : list (Z * Qc)) (dates : list Z)
    : result (list (option Qc)) :=
  if decide (NoDup (s.*1)) then
    Ok (series_reindex (list_to_map s) dates)
  else Raise duplicate_labels_error.

Definition series_fillna (v : Qc) (s : list (option Qc)) : list Qc :=
  default v <$> s.

Fixpoint series_ffill_from (prev : option Qc) (s : list (option Qc))
    : list (option Qc) :=
  match s with
  | [] => []
  | x :: s' =>
      let x' := from_option Some prev x in x' :: series_ffill_from x' s'
  end.
Definition series_ffill (s : list (option Qc)) : list (option Qc) :=
  series_ffill_from None s.

Fixpoint cumsum_from (acc : Qc) (s : list Qc) : list Qc :=
  match s with
  | [] => []
  | x :: s' => (acc + x) :: cumsum_from (acc + x) s'
  end.
Definition cumsum (s : list Qc) : list Qc := cumsum_from 0 s.

(** [clip(lower=lo)]. *)
Definition clip_lower (lo x : Qc) : Qc := if decide (x < lo) then lo else x.

(** [isna().any()] is false: every value is resolved. *)
Definition resolved (s : list (option Qc)) : option (list Qc) :=
  mapM id s.

(** Float division: a zero divisor gives an infinity of the sign of the
    dividend, and [NaN] for [0/0] (the sign of a zero is not modelled); any
    other divisor, negative ones included, gives the quotient. *)
Definition float_div (a b : Qc) : fval :=
  if decide (b = 0) then
    if decide (0 < a) then PosInf
    else if decide (a < 0) then NegInf
    else NaN
  else Fin (a / b).

(** *** Strings *)

Definition lower_ascii (a : Ascii.ascii) : Ascii.ascii :=
  let n := Ascii.nat_of_ascii a in
  if bool_decide (65 ≤ n ≤ 90)%nat then Ascii.ascii_of_nat (n + 32) else a.

(** [str.lower()] on the ASCII letters. *)
Fixpoint lower (s : string) : string :=
  match s with
  | EmptyString => EmptyString
  | String a s' => String (lower_ascii a) (lower s')
  end.

(** [str.contains(pat)] for a pattern without regex metacharacters. *)
Fixpoint contains (pat s : string) : bool :=
  String.prefix pat s ||
  match s with
  | EmptyString => false
  | String _ s' => contains pat s'
  end.

(** [df["type"].str.lower().str.contains(pat, na=False)]. *)
Definition type_contains (pat : string) (r : CashFlow.t) : bool :=
  match CashFlow.type r with
  | Some s => contains pat (lower s)
  | None => false
  end.
End pandas.

(** ** The calculator *)

Section NAVCalculator.
Local Open Scope Qc_scope.

(** Lines 29-36.  [read_csv] gives a file without data rows object-typed
    columns ([parse_dates] has nothing to convert), and the [.dt]
    accessor of line 36 raises on a column that is not datetime-like.
    Otherwise the dates are normalised to midnight: they are the day
    numbers of the records. *)
Definition normalize (dates : list Z) : result (list Z) :=
  if decide (dates = []) then Raise dt_accessor_error else Ok dates.

Definition load_data (h : list Holding.t) (p : list Price.t)
    (c : list CashFlow.t) (u : list Units.t) : result NAVCalculator :=
  hd ← normalize (Holding.date <$> h);
  pd ← normalize (Price.date <$> p);
  cd ← normalize (CashFlow.date <$> c);
  ud ← normalize (Units.date <$> u);
  let min_date :=
    py_min (series_min hd) [series_min pd; series_min cd; series_min ud] in
  let max_date :=
    py_max (series_max hd) [series_max pd; series_max cd; series_max ud] in
  dates ← date_range min_date max_date;
  Ok {| holdings := h; prices := p; cashflows := c; units := u;
        all_dates := dates |}.

Definition prepare_holdings (self : NAVCalculator) : result Frame :=
  let daily :=
    map_to_list (groupby_sum
      ((λ r, (Holding.date r, Holding.ticker r, Holding.quantity r))
         <$> holdings self)) in
  pv ← pivot daily;
  Ok (fillna 0 (ffill (reindex pv (all_dates self)))).

Definition prepare_prices (self : NAVCalculator) : result Frame :=
  pv ← pivot ((λ r, (Price.date r, Price.ticker r, Price.close r))
                <$> prices self);
  Ok (ffill (reindex pv (all_dates self))).

Definition calculate_assets (holdings_pivot prices_pivot : Frame) : list Qc :=
  let all_tickers := columns holdings_pivot ∪ columns prices_pivot in
  let holdings_pivot := reindex_columns all_tickers (Some 0) holdings_pivot in
  let prices_pivot := reindex_columns all_tickers None prices_pivot in
  let market_value := frame_mul holdings_pivot prices_pivot in
  let market_value := fillna 0 market_value in
  sum_axis1 market_value.

(** [groupby("date")["amount"].sum().reindex(all_dates).fillna(0)]. *)
Definition amount_by_date (flows : list CashFlow.t) (dates : list Z) : list Qc :=
  series_fillna 0
    (series_reindex
       (groupby_sum ((λ r, (CashFlow.date r, CashFlow.amount r)) <$> flows))
       dates).

Definition calculate_cash_and_liabilities (self : NAVCalculator)
    : list Qc * list Qc * list Qc :=
  let cf_by_date := amount_by_date (cashflows self) (all_dates self) in
  let cash_balance := cumsum cf_by_date in
  let fees := filter (λ r, type_contains "fee" r) (cashflows self) in
  let fees_by_date := amount_by_date fees (all_dates self) in
  let liabilities := (λ x, clip_lower 0 (- x)) <$> fees_by_date in
  let dividends := filter (λ r, type_contains "dividend" r) (cashflows self) in
  let div_by_date := amount_by_date dividends (all_dates self) in
  (cash_balance, liabilities, div_by_date).

Definition prepare_units (self : NAVCalculator) : result (list Qc) :=
  let units_series :=
    (λ r, (Units.date r, Units.units_outstanding r)) <$> units self in
  units_series ← series_reindex_list units_series (all_dates self);
  let units_series := series_ffill units_series in
  match resolved units_series with
  | None => Raise units_missing_error
  | Some units_series => Ok units_series
  end.

Definition compute_nav (self : NAVCalculator) : result (list NavRow.t) :=
  holdings_pivot ← prepare_holdings self;
  prices_pivot ← prepare_prices self;
  let assets_securities := calculate_assets holdings_pivot prices_pivot in
  let '(cash_balance, liabilities, dividends) :=
    calculate_cash_and_liabilities self in
  units_series ← prepare_units self;
  let total_assets :=
    zip_with Qcplus (zip_with Qcplus assets_securities cash_balance)
      (cumsum dividends) in
  let net_assets := zip_with Qcminus total_assets liabilities in
  let nav_per_unit := zip_with float_div net_assets units_series in
  Ok ((λ x, match x with
            | (d, (a, (c, (dv, (l, (n, (u, q))))))) =>
                {| NavRow.date := d;
                   NavRow.assets_from_securities := a;
                   NavRow.cash_balance := c;
                   NavRow.cumulative_dividends := dv;
                   NavRow.liabilities := l;
                   NavRow.net_assets := n;
                   NavRow.units_outstanding := u;
                   NavRow.nav_per_unit := q |}
            end)
        <$> zip (all_dates self)
              (zip assets_securities
                 (zip cash_balance
                    (zip (cumsum dividends)
                       (zip liabilities
                          (zip net_assets
                             (zip units_series nav_per_unit))))))).

(** The script of lines 120-123: load, then compute. *)
Definition main (h : list Holding.t) (p : list Price.t)
    (c : list CashFlow.t) (u : list Units.t) : result (list NavRow.t) :=
  nav ← load_data h p c u;
  compute_nav nav.
End NAVCalculator.

(** ** What the ledgers say, in the words of the specification *)

Section ledger.
Local Open Scope Qc_scope.

(** The net cash flow booked on day [d]. *)
Definition flow_on (flows : list CashFlow.t) (d : Z) : Qc :=
  sum_list (CashFlow.amount <$> filter (λ r, CashFlow.date r = d) flows).

(** The net flow of day [d] over the records whose label contains
    [pat], case-insensitively. *)
Definition labelled_flow_on (pat : string) (flows : list CashFlow.t) (d : Z) : Qc :=
  flow_on (filter (λ r, type_contains pat r) flows) d.

(** Ticker [t] has a holding record dated [d]. *)
Definition held (h : list Holding.t) (d : Z) (t : string) : Prop :=
  ∃ r, r ∈ h ∧ Holding.date r = d ∧ Holding.ticker r = t.

(** The aggregated (netted) quantity of ticker [t] on day [d]. *)
Definition quantity_on (h : list Holding.t) (d : Z) (t : string) : Qc :=
  sum_list (Holding.quantity <$>
    filter (λ r, Holding.date r = d ∧ Holding.ticker r = t) h).

(** The most recent date of [ds] on or before [d]. *)
Definition latest_date (ds : list Z) (d : Z) : option Z :=
  series_max (filter (λ x, x ≤ d)%Z ds).


(** The close recorded for ticker [t] on day [d]. *)
Definition close_on (p : list Price.t) (d : Z) (t : string) : option Qc :=
  Price.close <$>
    head (filter (λ r, Price.date r = d ∧ Price.ticker r = t) p).

(** Ticker [t] has a price record dated [d]. *)
Definition priced (p : list Price.t) (d : Z) (t : string) : Prop :=
  ∃ r, r ∈ p ∧ Price.date r = d ∧ Price.ticker r = t.

(** The forward-filled price: the close of the most recent price record
    of [t] on or before [d], unresolved when there is none. *)
Definition price_on (p : list Price.t) (t : string) (d : Z) : option Qc :=
  d0 ← latest_date (Price.date <$> filter (λ r, Price.ticker r = t) p) d;
  close_on p d0 t.






Definition tickers_of_holdings (h : list Holding.t) : gset string :=
  list_to_set (Holding.ticker <$> h).
Definition tickers_of_prices (p : list Price.t) : gset string :=
  list_to_set (Price.ticker <$> p).



(** Every date of the four inputs. *)
Definition record_dates (h : list Holding.t) (p : list Price.t)
    (c : list CashFlow.t) (u : list Units.t) : list Z :=
  (Holding.date <$> h) ++ (Price.date <$> p) ++
  (CashFlow.date <$> c) ++ (Units.date <$> u).



(** The calculator with another cash-flow ledger. *)
Definition with_cashflows (self : NAVCalculator) (c : list CashFlow.t)
    : NAVCalculator :=
  {| holdings := holdings self; prices := prices self; cashflows := c;
     units := units self; all_dates := all_dates self |}.
End ledger.

(** ** The worked scenario *)

Section scenario.
Local Open Scope Z_scope.

(** 2024-01-01 is day 19723 of the epoch. *)
Definition jan1 : Z := 19723.
Definition jan2 : Z := 19724.

Definition scenario_holdings : list Holding.t :=
  [ {| Holding.date := jan1; Holding.ticker := "AAA";
       Holding.quantity := Qc_of_Z 100 |} ].
Definition scenario_prices : list Price.t :=
  [ {| Price.date := jan1; Price.ticker := "AAA"; Price.close := Qc_of_Z 10 |};
    {| Price.date := jan2; Price.ticker := "AAA"; Price.close := Qc_of_Z 12 |} ].
Definition scenario_cashflows : list CashFlow.t :=
  [ {| CashFlow.date := jan1; CashFlow.amount := Qc_of_Z 1000;
       CashFlow.type := Some "subscription" |} ].
Definition scenario_units : list Units.t :=
  [ {| Units.date := jan1; Units.units_outstanding := Qc_of_Z 100 |} ].

Definition scenario_calculator : NAVCalculator :=
  {| holdings := scenario_holdings; prices := scenario_prices;
     cashflows := scenario_cashflows; units := scenario_units;
     all_dates := [jan1; jan2] |}.
(** Variants of the scenario. *)





(** Two closes for the same ticker on the first day. *)
Definition duplicate_prices : list Price.t :=
  [ {| Price.date := jan1; Price.ticker := "AAA"; Price.close := Qc_of_Z 10 |};
    {| Price.date := jan1; Price.ticker := "AAA"; Price.close := Qc_of_Z 11 |} ].


Definition scenario_price_matrix : Frame :=
  match prepare_prices scenario_calculator with
  | Ok pp => pp
  | Raise _ => {| columns := ∅; rows := [] |}
  end.


(** A management fee of 50 paid on the second day. *)
Definition scenario_fee : CashFlow.t :=
  {| CashFlow.date := jan2; CashFlow.amount := Qc_of_Z (-50);
     CashFlow.type := Some "management fee" |}.

(** The rows of the run on the scenario. *)
Definition scenario_rows : list NavRow.t :=
  match main scenario_holdings scenario_prices scenario_cashflows
          scenario_units with
  | Ok rs => rs
  | Raise _ => []
  end.
End scenario.

(** ** Auxiliary facts *)

Section basics.
Local Open Scope Qc_scope.


Lemma filter_key_absent {K} `{EqDecision K} (l : list (K * Qc)) k :
  k ∉ l.*1 → filter (λ kv, kv.1 = k) l = [].
Proof.
  induction l as [|kv l IH]; [done|]. rewrite fmap_cons, not_elem_of_cons.
  intros [Hne Hl]. rewrite filter_cons_False by (simpl; congruence). auto.
Qed.

Lemma groupby_sum_lookup {K} `{Countable K} (l : list (K * Qc)) k :
  groupby_sum l !! k =
    if decide (k ∈ l.*1)
    then Some (sum_list ((filter (λ kv, kv.1 = k) l).*2))
    else None.
Proof.
  induction l as [|kv l IH]; [done|].
  change (groupby_sum (kv :: l))
    with (<[kv.1 := kv.2 + default 0 (groupby_sum l !! kv.1)]> (groupby_sum l)).
  rewrite fmap_cons. destruct (decide (kv.1 = k)) as [Heq|Hne].
  - rewrite Heq, lookup_insert_eq, decide_True by apply list_elem_of_here.
    rewrite filter_cons_True by done. rewrite fmap_cons. simpl. rewrite IH.
    case_decide as Hin; simpl; [done|].
    by rewrite filter_key_absent.
  - rewrite lookup_insert_ne by done. rewrite IH.
    rewrite filter_cons_False by done.
    apply decide_ext. rewrite elem_of_cons. intuition congruence.
Qed.

Lemma groupby_sum_default {K} `{Countable K} (l : list (K * Qc)) k :
  default 0 (groupby_sum l !! k) = sum_list ((filter (λ kv, kv.1 = k) l).*2).
Proof.
  rewrite groupby_sum_lookup. case_decide; [done|].
  by rewrite filter_key_absent.
Qed.

Lemma filter_fmap_values {A K} `{EqDecision K} (key : A → K) (val : A → Qc)
    (l : list A) k :
  (filter (λ kv, kv.1 = k) ((λ r, (key r, val r)) <$> l)).*2
  = val <$> filter (λ r, key r = k) l.
Proof.
  induction l as [|r l IH]; [done|]. rewrite fmap_cons.
  destruct (decide (key r = k)).
  - rewrite !filter_cons_True by done. rewrite !fmap_cons. simpl.
    f_equal. apply IH.
  - rewrite !filter_cons_False by done. apply IH.
Qed.

Lemma amount_by_date_length flows dates :
  length (amount_by_date flows dates) = length dates.
Proof.
  unfold amount_by_date, series_fillna, series_reindex.
  by rewrite !length_fmap.
Qed.

Lemma amount_by_date_lookup flows dates i d :
  dates !! i = Some d →
  amount_by_date flows dates !! i = Some (flow_on flows d).
Proof.
  intros Hd. unfold amount_by_date, series_fillna, series_reindex.
  rewrite !list_lookup_fmap, Hd. simpl. f_equal.
  rewrite groupby_sum_default. unfold flow_on.
  by rewrite (filter_fmap_values CashFlow.date CashFlow.amount).
Qed.
End basics.

(** ** The canonical date range *)

Section date_range.
Local Open Scope Z_scope.

Lemma series_max_None l : series_max l = None ↔ l = [].
Proof. by destruct l. Qed.

Lemma series_min_None l : series_min l = None ↔ l = [].
Proof. by destruct l. Qed.

Lemma series_max_Some l m :
  series_max l = Some m ↔ m ∈ l ∧ ∀ x, x ∈ l → x ≤ m.
Proof.
  revert m. induction l as [|x l IH]; intros m.
  - split; [done|]. intros [[]%not_elem_of_nil _].
  - simpl. destruct (series_max l) as [y|] eqn:Hy; simpl.
    + destruct (IH y) as [[Hin Hub] _]; [done|].
      split.
      * intros [= <-]. split.
        -- destruct (Z.max_spec x y) as [[_ ->]|[_ ->]];
             [by apply list_elem_of_further | apply list_elem_of_here].
        -- intros z [->|Hz%Hub]%elem_of_cons; lia.
      * intros [Hm Hall]. f_equal.
        pose proof (Hall x (list_elem_of_here _ _)).
        pose proof (Hall y (list_elem_of_further _ _ _ Hin)).
        apply elem_of_cons in Hm as [->|Hm%Hub]; lia.
    + apply series_max_None in Hy as ->. split.
      * intros [= <-]. split; [apply list_elem_of_here|].
        by intros z ->%list_elem_of_singleton.
      * by intros [->%list_elem_of_singleton _].
Qed.

Lemma series_min_Some l m :
  series_min l = Some m ↔ m ∈ l ∧ ∀ x, x ∈ l → m ≤ x.
Proof.
  revert m. induction l as [|x l IH]; intros m.
  - split; [done|]. intros [[]%not_elem_of_nil _].
  - simpl. destruct (series_min l) as [y|] eqn:Hy; simpl.
    + destruct (IH y) as [[Hin Hub] _]; [done|].
      split.
      * intros [= <-]. split.
        -- destruct (Z.min_spec x y) as [[_ ->]|[_ ->]];
             [apply list_elem_of_here | by apply list_elem_of_further].
        -- intros z [->|Hz%Hub]%elem_of_cons; lia.
      * intros [Hm Hall]. f_equal.
        pose proof (Hall x (list_elem_of_here _ _)).
        pose proof (Hall y (list_elem_of_further _ _ _ Hin)).
        apply elem_of_cons in Hm as [->|Hm%Hub]; lia.
    + apply series_min_None in Hy as ->. split.
      * intros [= <-]. split; [apply list_elem_of_here|].
        by intros z ->%list_elem_of_singleton.
      * by intros [->%list_elem_of_singleton _].
Qed.

Lemma series_min_is_Some l : l ≠ [] → is_Some (series_min l).
Proof. destruct l; [done|]. simpl. eauto. Qed.

Lemma series_max_is_Some l : l ≠ [] → is_Some (series_max l).
Proof. destruct l; [done|]. simpl. eauto. Qed.

Lemma py_min_Some a l : py_min (Some a) (Some <$> l) = Some (foldl Z.min a l).
Proof.
  unfold py_min. revert a. induction l as [|x l IH]; intros a; [done|].
  simpl. case_bool_decide.
  - rewrite IH. by rewrite Z.min_r by lia.
  - rewrite IH. by rewrite Z.min_l by lia.
Qed.

Lemma py_max_Some a l : py_max (Some a) (Some <$> l) = Some (foldl Z.max a l).
Proof.
  unfold py_max. revert a. induction l as [|x l IH]; intros a; [done|].
  simpl. case_bool_decide.
  - rewrite IH. by rewrite Z.max_r by lia.
  - rewrite IH. by rewrite Z.max_l by lia.
Qed.

(** Lines 39-41 on their own: a [NaT] in first position is kept by [min]
    and [max], and [date_range] refuses it; a [NaT] in a later position is
    passed over. *)
Lemma py_min_NaT_first rest : py_min None rest = None.
Proof. unfold py_min. induction rest as [|x rest IH]; [done|]. by destruct x. Qed.

Lemma py_max_NaT_first rest : py_max None rest = None.
Proof. unfold py_max. induction rest as [|x rest IH]; [done|]. by destruct x. Qed.

Lemma date_range_NaT stop : date_range None stop = Raise nat_range_error.
Proof. done. Qed.

Lemma py_min_NaT_later first rest1 rest2 :
  py_min first (rest1 ++ None :: rest2) = py_min first (rest1 ++ rest2).
Proof.
  unfold py_min. rewrite !foldl_app. simpl.
  by destruct (foldl _ first rest1).
Qed.

Lemma py_max_NaT_later first rest1 rest2 :
  py_max first (rest1 ++ None :: rest2) = py_max first (rest1 ++ rest2).
Proof.
  unfold py_max. rewrite !foldl_app. simpl.
  by destruct (foldl _ first rest1).
Qed.

(** What a successful [load_data] leaves in the calculator: the four
    collections, none of them empty, and the consecutive days from the
    earliest to the latest date of any record. *)
Lemma load_data_inv h p c u self :
  load_data h p c u = Ok self →
  holdings self = h ∧ prices self = p ∧ cashflows self = c ∧ units self = u ∧
  h ≠ [] ∧ p ≠ [] ∧ c ≠ [] ∧ u ≠ [] ∧
  ∃ lo hi,
    all_dates self = seqZ lo (hi - lo + 1) ∧
    lo ∈ record_dates h p c u ∧ hi ∈ record_dates h p c u ∧
    ∀ d, d ∈ record_dates h p c u → lo ≤ d ≤ hi.
Proof.
  unfold load_data, normalize. intros Hload.
  repeat case_decide; try discriminate.
  cbn [mbind result_bind] in Hload.
  destruct (series_min_is_Some (Holding.date <$> h)) as [a1 Ea1]; [done|].
  destruct (series_min_is_Some (Price.date <$> p)) as [a2 Ea2]; [done|].
  destruct (series_min_is_Some (CashFlow.date <$> c)) as [a3 Ea3]; [done|].
  destruct (series_min_is_Some (Units.date <$> u)) as [a4 Ea4]; [done|].
  destruct (series_max_is_Some (Holding.date <$> h)) as [b1 Eb1]; [done|].
  destruct (series_max_is_Some (Price.date <$> p)) as [b2 Eb2]; [done|].
  destruct (series_max_is_Some (CashFlow.date <$> c)) as [b3 Eb3]; [done|].
  destruct (series_max_is_Some (Units.date <$> u)) as [b4 Eb4]; [done|].
  rewrite Ea1, Ea2, Ea3, Ea4, Eb1, Eb2, Eb3, Eb4 in Hload.
  pose proof (py_min_Some a1 [a2; a3; a4]) as Hmin.
  pose proof (py_max_Some b1 [b2; b3; b4]) as Hmax.
  rewrite !fmap_cons, fmap_nil in Hmin, Hmax. rewrite Hmin, Hmax in Hload.
  cbn [date_range foldl mbind result_bind] in Hload.
  injection Hload as <-. simpl.
  apply series_min_Some in Ea1 as [? ?], Ea2 as [? ?], Ea3 as [? ?], Ea4 as [? ?].
  apply series_max_Some in Eb1 as [? ?], Eb2 as [? ?], Eb3 as [? ?], Eb4 as [? ?].
  do 4 (split; [done|]).
  assert (h ≠ [] ∧ p ≠ [] ∧ c ≠ [] ∧ u ≠ []) as (? & ? & ? & ?).
  { repeat split; intros ->; done. }
  do 4 (split; [done|]).
  eexists _, _. split; [done|]. unfold record_dates.
  rewrite !elem_of_app. split_and!.
  - destruct (Z.min_spec (Z.min (Z.min a1 a2) a3) a4) as [[_ ->]|[_ ->]];
      [|tauto].
    destruct (Z.min_spec (Z.min a1 a2) a3) as [[_ ->]|[_ ->]]; [|tauto].
    destruct (Z.min_spec a1 a2) as [[_ ->]|[_ ->]]; tauto.
  - destruct (Z.max_spec (Z.max (Z.max b1 b2) b3) b4) as [[_ ->]|[_ ->]];
      [tauto|].
    destruct (Z.max_spec (Z.max b1 b2) b3) as [[_ ->]|[_ ->]]; [tauto|].
    destruct (Z.max_spec b1 b2) as [[_ ->]|[_ ->]]; tauto.
  - intros d. rewrite !elem_of_app.
    intros [Hd|[Hd|[Hd|Hd]]];
      repeat match goal with
             | H : ∀ x, x ∈ ?l → _ |- _ =>
                 match type of Hd with
                 | _ ∈ l => pose proof (H _ Hd); clear H
                 | _ => clear H
                 end
             end; lia.
Qed.
End date_range.

(** ** Forward-fill *)

Section forward_fill.
Local Open Scope Z_scope.

(** What a forward-filled series holds at position [i]: the value of the
    nearest resolved position at or above [i], else the value carried in. *)
Lemma series_ffill_from_lookup prev (s : list (option Qc)) (i : nat) :
  (i < length s)%nat →
  ∃ x, series_ffill_from prev s !! i = Some x ∧
    (∀ (j : nat) v, (j ≤ i)%nat → s !! j = Some (Some v) →
       (∀ k : nat, (j < k ≤ i)%nat → s !! k = Some None) → x = Some v) ∧
    ((∀ j : nat, (j ≤ i)%nat → s !! j = Some None) → x = prev).
Proof.
  revert prev i. induction s as [|y s IH]; intros prev i Hi; simpl in Hi; [lia|].
  destruct i as [|i]; simpl.
  - eexists. split; [done|]. split.
    + intros j v Hj Hv _. assert (j = 0%nat) as -> by lia.
      simpl in Hv. by injection Hv as ->.
    + intros Hall. specialize (Hall 0%nat (Nat.le_refl _)). simpl in Hall.
      by injection Hall as ->.
  - destruct (IH (from_option Some prev y) i) as (x & Hx & Hsome & Hnone); [lia|].
    exists x. split; [done|]. split.
    + intros [|j] v Hj Hv Hgap.
      * simpl in Hv. injection Hv as ->. simpl in Hnone. apply Hnone.
        intros k Hk. apply (Hgap (S k)). lia.
      * apply (Hsome j v); [lia|done|].
        intros k Hk. apply (Hgap (S k)). lia.
    + intros Hall. pose proof (Hall 0%nat (Nat.le_0_l _)) as H0.
      simpl in H0. injection H0 as ->. simpl in Hnone. apply Hnone.
      intros k Hk. apply (Hall (S k)). lia.
Qed.

Lemma series_ffill_from_length prev (s : list (option Qc)) :
  length (series_ffill_from prev s) = length s.
Proof. revert prev. induction s; intros; simpl; auto. Qed.

(** The same over the consecutive days from [lo]: position [i] holds the
    observation of the most recent day on or before [lo + i]. *)
Lemma series_ffill_seqZ (f : Z → option Qc) (lo n : Z) (i : nat) :
  Z.of_nat i < n →
  ∃ x, series_ffill (f <$> seqZ lo n) !! i = Some x ∧
    (∀ d0 v, lo ≤ d0 ≤ lo + Z.of_nat i → f d0 = Some v →
       (∀ d1, d0 < d1 ≤ lo + Z.of_nat i → f d1 = None) → x = Some v) ∧
    ((∀ d0, lo ≤ d0 ≤ lo + Z.of_nat i → f d0 = None) → x = None).
Proof.
  intros Hi. unfold series_ffill.
  destruct (series_ffill_from_lookup None (f <$> seqZ lo n) i)
    as (x & Hx & Hsome & Hnone).
  { rewrite length_fmap, length_seqZ. lia. }
  exists x. split; [done|]. split.
  - intros d0 v Hd0 Hv Hgap. apply (Hsome (Z.to_nat (d0 - lo)) v); [lia| |].
    + rewrite list_lookup_fmap, lookup_seqZ_lt by lia. simpl.
      replace (lo + Z.of_nat (Z.to_nat (d0 - lo))) with d0 by lia.
      by rewrite Hv.
    + intros k Hk. rewrite list_lookup_fmap, lookup_seqZ_lt by lia. simpl.
      f_equal. apply Hgap. lia.
  - intros Hall. apply Hnone. intros j Hj.
    rewrite list_lookup_fmap, lookup_seqZ_lt by lia. simpl.
    f_equal. apply Hall. lia.
Qed.

(** Forward-filling a frame forward-fills each of its columns. *)
Lemma ffill_rows_column prev rs (t : string) :
  (λ r : gmap string Qc, r !! t) <$> ffill_rows prev rs
  = series_ffill_from (prev !! t) ((λ r : gmap string Qc, r !! t) <$> rs).
Proof.
  revert prev. induction rs as [|r rs IH]; intros prev; [done|].
  simpl. rewrite IH. rewrite lookup_union.
  by destruct (r !! t), (prev !! t).
Qed.

Lemma ffill_rows_length prev rs : length (ffill_rows prev rs) = length rs.
Proof. revert prev. induction rs; intros; simpl; auto. Qed.

(** A cell of a pivot reindexed onto consecutive days and forward-filled. *)
Lemma ffill_reindex_cell (pv : Pivot) (lo n : Z) (i : nat) (t : string) :
  Z.of_nat i < n →
  ∃ r, rows (ffill (reindex pv (seqZ lo n))) !! i = Some r ∧
    (∀ d0 v, lo ≤ d0 ≤ lo + Z.of_nat i →
       default ∅ (pv_rows pv !! d0) !! t = Some v →
       (∀ d1, d0 < d1 ≤ lo + Z.of_nat i → default ∅ (pv_rows pv !! d1) !! t = None) →
       r !! t = Some v) ∧
    ((∀ d0, lo ≤ d0 ≤ lo + Z.of_nat i → default ∅ (pv_rows pv !! d0) !! t = None) →
       r !! t = None).
Proof.
  intros Hi. simpl.
  set (rs := (λ d, default ∅ (pv_rows pv !! d)) <$> seqZ lo n).
  destruct (lookup_lt_is_Some_2 (ffill_rows ∅ rs) i) as [r Hr].
  { rewrite ffill_rows_length. unfold rs. rewrite length_fmap, length_seqZ. lia. }
  destruct (series_ffill_seqZ (λ d, default ∅ (pv_rows pv !! d) !! t) lo n i Hi)
    as (x & Hx & Hsome & Hnone).
  assert (x = r !! t) as ->.
  { pose proof (ffill_rows_column ∅ rs t) as Hcol.
    apply (f_equal (λ l, l !! i)) in Hcol.
    rewrite list_lookup_fmap, Hr, lookup_empty in Hcol. simpl in Hcol.
    unfold rs in Hcol. rewrite <-list_fmap_compose in Hcol.
    unfold series_ffill in Hx. unfold compose in Hcol.
    rewrite Hx in Hcol. by injection Hcol. }
  exists r. split; [done|]. split; [apply Hsome | apply Hnone].
Qed.
End forward_fill.

(** ** Pivots *)

Section pivots.
Local Open Scope Qc_scope.

Lemma pivot_rows_lookup (recs : list (Z * string * Qc)) d t :
  default ∅ (pivot_rows recs !! d) !! t
  = (list_to_map recs : gmap (Z * string) Qc) !! (d, t).
Proof.
  induction recs as [|[[d' t'] v] recs IH]; [done|].
  change (pivot_rows (((d', t'), v) :: recs))
    with (<[d' := <[t' := v]> (default ∅ (pivot_rows recs !! d'))]>
            (pivot_rows recs)).
  change (list_to_map (((d', t'), v) :: recs) : gmap (Z * string) Qc)
    with (<[(d', t') := v]> (list_to_map recs : gmap (Z * string) Qc)).
  destruct (decide (d' = d)) as [->|Hd].
  - rewrite lookup_insert_eq. simpl. destruct (decide (t' = t)) as [->|Ht].
    + by rewrite !lookup_insert_eq.
    + rewrite !lookup_insert_ne by congruence. apply IH.
  - rewrite !lookup_insert_ne by congruence. apply IH.
Qed.

Lemma pivot_Ok recs :
  NoDup (recs.*1) →
  pivot recs = Ok {| pv_columns := list_to_set (recs.*1.*2);
                     pv_rows := pivot_rows recs |}.
Proof. intros. unfold pivot. by rewrite decide_True. Qed.

Lemma pivot_Raise recs :
  ¬ NoDup (recs.*1) → pivot recs = Raise duplicate_entries_error.
Proof. intros. unfold pivot. by rewrite decide_False. Qed.

(** The rows of the holdings frame, as (date, ticker, quantity). *)
Lemma held_elem_of (h : list Holding.t) d t :
  held h d t ↔
  (d, t) ∈ ((λ r, (Holding.date r, Holding.ticker r, Holding.quantity r)) <$> h).*1.
Proof.
  unfold held. rewrite <-list_fmap_compose, list_elem_of_fmap. split.
  - intros (r & Hr & <- & <-). by exists r.
  - intros (r & [= -> ->] & Hr). by exists r.
Qed.

Lemma holdings_groupby_lookup (h : list Holding.t) d t :
  default 0 (groupby_sum
    ((λ r, (Holding.date r, Holding.ticker r, Holding.quantity r)) <$> h)
    !! (d, t)) = quantity_on h d t.
Proof.
  rewrite groupby_sum_default. unfold quantity_on.
  rewrite (filter_fmap_values
             (λ r, (Holding.date r, Holding.ticker r)) Holding.quantity).
  rewrite (list_filter_iff _
             (λ r, Holding.date r = d ∧ Holding.ticker r = t)); [done|].
  intros r. split.
  - by intros [= -> ->].
  - by intros [-> ->].
Qed.

(** The pivot of the aggregated holdings never raises; its cell (d, t) is
    the netted quantity of the day when the ticker has a record that day,
    and missing otherwise. *)
Lemma holdings_pivot_Ok (h : list Holding.t) :
  ∃ pv,
    pivot (map_to_list (groupby_sum
      ((λ r, (Holding.date r, Holding.ticker r, Holding.quantity r)) <$> h)))
    = Ok pv ∧
    pv_columns pv = tickers_of_holdings h ∧
    (∀ d t, held h d t →
       default ∅ (pv_rows pv !! d) !! t = Some (quantity_on h d t)) ∧
    (∀ d t, ¬ held h d t → default ∅ (pv_rows pv !! d) !! t = None).
Proof.
  set (recs := (λ r, (Holding.date r, Holding.ticker r, Holding.quantity r)) <$> h).
  eexists. split; [apply pivot_Ok, NoDup_fst_map_to_list|]. simpl.
  split; [|split].
  - apply set_eq. intros t. unfold tickers_of_holdings.
    rewrite !elem_of_list_to_set, !list_elem_of_fmap. split.
    + intros ([d t'] & -> & [[[d' t''] v] [Heq Hkv]]%list_elem_of_fmap).
      simpl in Heq. injection Heq as <- <-. simpl.
      apply elem_of_map_to_list in Hkv.
      assert ((d, t') ∈ recs.*1) as Hin.
      { rewrite groupby_sum_lookup in Hkv. by case_decide. }
      apply held_elem_of in Hin as (r & Hr & _ & <-). by exists r.
    + intros (r & -> & Hr).
      assert (held h (Holding.date r) (Holding.ticker r)) as Hheld
        by (by exists r).
      apply held_elem_of in Hheld.
      exists (Holding.date r, Holding.ticker r). split; [done|].
      apply list_elem_of_fmap.
      exists (Holding.date r, Holding.ticker r,
              sum_list ((filter (λ kv, kv.1 = (Holding.date r, Holding.ticker r)) recs).*2)).
      split; [done|]. apply elem_of_map_to_list.
      rewrite groupby_sum_lookup. by rewrite decide_True.
  - intros d t Hheld. rewrite pivot_rows_lookup, list_to_map_to_list.
    rewrite <-holdings_groupby_lookup. fold recs.
    apply held_elem_of in Hheld. fold recs in Hheld.
    rewrite groupby_sum_lookup. by rewrite decide_True.
  - intros d t Hheld. rewrite pivot_rows_lookup, list_to_map_to_list.
    rewrite groupby_sum_lookup. rewrite decide_False; [done|].
    intros Hin. by apply Hheld, held_elem_of.
Qed.
End pivots.

(** ** The holdings matrix *)

Section holdings_matrix.
Local Open Scope Z_scope.

Lemma latest_date_Some ds d d0 :
  latest_date ds d = Some d0 ↔
  d0 ∈ ds ∧ d0 ≤ d ∧ ∀ x, x ∈ ds → x ≤ d → x ≤ d0.
Proof.
  unfold latest_date. rewrite series_max_Some, list_elem_of_filter. split.
  - intros [[? ?] Hub]. split_and!; [done..|].
    intros x ? ?. apply Hub. by apply list_elem_of_filter.
  - intros (? & ? & Hub). split; [done|].
    intros x [? ?]%list_elem_of_filter. by apply Hub.
Qed.

Lemma latest_date_None ds d :
  latest_date ds d = None ↔ ∀ x, x ∈ ds → d < x.
Proof.
  unfold latest_date. rewrite series_max_None. split.
  - intros Hnil x Hx. destruct (decide (x ≤ d)) as [Hle|]; [|lia].
    assert (x ∈ filter (λ x, x ≤ d) ds) as Hin by (by apply list_elem_of_filter).
    rewrite Hnil in Hin. by apply not_elem_of_nil in Hin.
  - intros Hall. apply elem_of_nil_inv. intros x [? ?%Hall]%list_elem_of_filter.
    lia.
Qed.



Lemma held_ticker h d t : held h d t → t ∈ tickers_of_holdings h.
Proof.
  intros (r & Hr & _ & <-). unfold tickers_of_holdings.
  apply elem_of_list_to_set, list_elem_of_fmap. by exists r.
Qed.





End holdings_matrix.

(** ** The price matrix *)

Section prices_matrix.
Local Open Scope Z_scope.

Lemma priced_dates (p : list Price.t) t d :
  d ∈ Price.date <$> filter (λ r, Price.ticker r = t) p ↔ priced p d t.
Proof.
  rewrite list_elem_of_fmap. unfold priced. split.
  - intros (r & -> & [? ?]%list_elem_of_filter). by exists r.
  - intros (r & ? & <- & ?). exists r. split; [done|].
    by apply list_elem_of_filter.
Qed.

Lemma priced_record_date h p c u d t :
  priced p d t → d ∈ record_dates h p c u.
Proof.
  intros (r & Hr & <- & _). unfold record_dates.
  rewrite !elem_of_app. right. left. apply list_elem_of_fmap. by exists r.
Qed.

Lemma close_on_None p d t : ¬ priced p d t → close_on p d t = None.
Proof.
  intros Hno. unfold close_on.
  destruct (filter _ p) as [|r l] eqn:Hf; [done|].
  assert (r ∈ filter (λ r, Price.date r = d ∧ Price.ticker r = t) p) as Hin
    by (rewrite Hf; apply list_elem_of_here).
  apply list_elem_of_filter in Hin as [[? ?] ?]. destruct Hno. by exists r.
Qed.

Lemma close_on_is_Some p d t : priced p d t → is_Some (close_on p d t).
Proof.
  intros (r & Hr & ? & ?). unfold close_on.
  destruct (filter _ p) as [|r' l] eqn:Hf; [|by eexists].
  assert (r ∈ filter (λ r, Price.date r = d ∧ Price.ticker r = t) p) as Hin
    by (by apply list_elem_of_filter).
  rewrite Hf in Hin. by apply not_elem_of_nil in Hin.
Qed.

(** A cell of the pivot of the price records. *)
Lemma prices_pivot_cell (p : list Price.t) d t :
  default ∅ (pivot_rows
    ((λ r, (Price.date r, Price.ticker r, Price.close r)) <$> p) !! d) !! t
  = close_on p d t.
Proof.
  rewrite pivot_rows_lookup. unfold close_on.
  induction p as [|r p IH]; [done|]. rewrite fmap_cons.
  change (list_to_map ((Price.date r, Price.ticker r, Price.close r) :: ?l))
    with (<[(Price.date r, Price.ticker r) := Price.close r]>
            (list_to_map l : gmap (Z * string) Qc)).
  destruct (decide (Price.date r = d ∧ Price.ticker r = t)) as [[<- <-]|Hne].
  - rewrite lookup_insert_eq. by rewrite filter_cons_True.
  - rewrite lookup_insert_ne by (intros [= ? ?]; tauto).
    by rewrite filter_cons_False.
Qed.

Lemma prices_columns (p : list Price.t) :
  list_to_set ((λ r, (Price.date r, Price.ticker r, Price.close r)) <$> p).*1.*2
  = tickers_of_prices p.
Proof.
  unfold tickers_of_prices. by rewrite <-!list_fmap_compose.
Qed.

(** Row [i] of the matrix of [prepare_prices]: the forward-filled price of
    every ticker, unresolved while the ticker has no price yet. *)
Lemma prepare_prices_rows h p c u self (i : nat) d :
  load_data h p c u = Ok self →
  all_dates self !! i = Some d →
  NoDup ((λ r, (Price.date r, Price.ticker r)) <$> p) →
  ∃ pp r,
    prepare_prices self = Ok pp ∧
    columns pp = tickers_of_prices p ∧
    length (rows pp) = length (all_dates self) ∧
    rows pp !! i = Some r ∧
    ∀ t, r !! t = price_on p t d.
Proof.
  intros Hload Hd Hnodup.
  destruct (load_data_inv _ _ _ _ _ Hload)
    as (_ & Hp & _ & _ & _ & _ & _ & _ & lo & hi & Hdates & _ & _ & Hrange).
  unfold prepare_prices. rewrite Hp, pivot_Ok
    by (by rewrite <-list_fmap_compose).
  cbn [mbind result_bind]. set (pv := Build_Pivot _ _).
  rewrite Hdates in Hd |- *. apply lookup_seqZ in Hd as [-> Hi].
  destruct (lookup_lt_is_Some_2
              (rows (ffill (reindex pv (seqZ lo (hi - lo + 1))))) i) as [r Hr].
  { simpl. rewrite ffill_rows_length, length_fmap, length_seqZ. lia. }
  exists (ffill (reindex pv (seqZ lo (hi - lo + 1)))), r.
  split; [done|]. split; [apply prices_columns|]. split_and!; [|done|].
  { simpl. by rewrite ffill_rows_length, !length_fmap. }
  intros t.
  destruct (ffill_reindex_cell pv lo (hi - lo + 1) i t Hi)
    as (r' & Hr' & Hsome & Hnone).
  rewrite Hr in Hr'. injection Hr' as <-. unfold price_on.
  destruct (latest_date _ _) as [d0|] eqn:Hlatest; simpl.
  - apply latest_date_Some in Hlatest as (Hin%priced_dates & Hle & Hub).
    destruct (close_on_is_Some p d0 t Hin) as [v Hv]. rewrite Hv.
    apply (Hsome d0 v).
    + pose proof (Hrange d0 (priced_record_date h p c u d0 t Hin)). lia.
    + unfold pv. simpl. by rewrite prices_pivot_cell.
    + intros d1 Hd1. unfold pv. simpl. rewrite prices_pivot_cell.
      apply close_on_None. intros Hpr%priced_dates.
      specialize (Hub d1 Hpr). lia.
  - apply Hnone. intros d0 Hd0. unfold pv. simpl. rewrite prices_pivot_cell.
    apply close_on_None. intros Hpr%priced_dates.
    pose proof (proj1 (latest_date_None _ _) Hlatest d0 Hpr). lia.
Qed.

(** The forward-filled price is unresolved exactly while the ticker has no
    price record on or before the day. *)
Lemma price_on_None p t d :
  price_on p t d = None ↔ ∀ d0, d0 ≤ d → ¬ priced p d0 t.
Proof.
  unfold price_on.
  destruct (latest_date _ _) as [d0|] eqn:Hlatest; simpl.
  - apply latest_date_Some in Hlatest as (Hin%priced_dates & Hle & Hub).
    split.
    + intros Hnone. destruct (close_on_is_Some p d0 t Hin) as [v Hv]. congruence.
    + intros Hno. by destruct (Hno d0 Hle).
  - split; [|done]. intros _ d0 Hd0 Hpr%priced_dates.
    pose proof (proj1 (latest_date_None _ _) Hlatest d0 Hpr). lia.
Qed.
End prices_matrix.

(** ** Valuation *)

Section valuation.
Local Open Scope Qc_scope.



Lemma calculate_assets_length hp pp :
  length (rows hp) = length (rows pp) →
  length (calculate_assets hp pp) = length (rows hp).
Proof.
  intros Hlen. unfold calculate_assets, sum_axis1. simpl.
  rewrite !length_fmap, length_zip_with, !length_fmap. lia.
Qed.
End valuation.

(** ** Cash, liabilities and dividends *)

Section cash.
Local Open Scope Qc_scope.

Lemma cumsum_from_length acc s : length (cumsum_from acc s) = length s.
Proof. revert acc. induction s; intros; simpl; auto. Qed.




Lemma flow_on_no_record flows d :
  (∀ r, r ∈ flows → CashFlow.date r ≠ d) → flow_on flows d = 0.
Proof.
  intros Hno. unfold flow_on.
  assert (filter (λ r, CashFlow.date r = d) flows = []) as ->; [|done].
  apply elem_of_nil_inv. intros r [? ?%Hno]%list_elem_of_filter. done.
Qed.




Lemma cash_balance_length self :
  length (calculate_cash_and_liabilities self).1.1 = length (all_dates self).
Proof.
  simpl. unfold cumsum. by rewrite cumsum_from_length, amount_by_date_length.
Qed.

Lemma liabilities_length self :
  length (calculate_cash_and_liabilities self).1.2 = length (all_dates self).
Proof. simpl. by rewrite length_fmap, amount_by_date_length. Qed.

Lemma dividends_length self :
  length (calculate_cash_and_liabilities self).2 = length (all_dates self).
Proof. simpl. by rewrite amount_by_date_length. Qed.



Lemma liabilities_lookup self (i : nat) d :
  all_dates self !! i = Some d →
  (calculate_cash_and_liabilities self).1.2 !! i
  = Some (clip_lower 0 (- labelled_flow_on "fee" (cashflows self) d)).
Proof.
  intros Hd. simpl. rewrite list_lookup_fmap.
  by rewrite (amount_by_date_lookup _ _ _ _ Hd).
Qed.
End cash.

(** ** Units outstanding *)

Section units_series.
Local Open Scope Z_scope.











End units_series.

(** ** The assembled rows *)

Section assembly.
Local Open Scope Qc_scope.

Lemma prepare_holdings_Ok self :
  ∃ hp, prepare_holdings self = Ok hp ∧
        length (rows hp) = length (all_dates self).
Proof.
  destruct (holdings_pivot_Ok (holdings self)) as (pv & Hpv & _).
  unfold prepare_holdings. rewrite Hpv. eexists. split; [done|].
  simpl. by rewrite length_fmap, ffill_rows_length, length_fmap.
Qed.

Lemma prepare_prices_length self pp :
  prepare_prices self = Ok pp → length (rows pp) = length (all_dates self).
Proof.
  unfold prepare_prices, pivot. case_decide; [|done].
  intros [= <-]. simpl. by rewrite ffill_rows_length, length_fmap.
Qed.

Lemma prepare_prices_duplicates self :
  ¬ NoDup ((λ r, (Price.date r, Price.ticker r)) <$> prices self) →
  prepare_prices self = Raise duplicate_entries_error.
Proof.
  intros Hdup. unfold prepare_prices.
  by rewrite pivot_Raise by (by rewrite <-list_fmap_compose).
Qed.

Lemma prepare_units_length self us :
  prepare_units self = Ok us → length us = length (all_dates self).
Proof.
  unfold prepare_units, series_reindex_list. case_decide; [|done].
  cbn [mbind result_bind].
  destruct (resolved _) as [us'|] eqn:Hres; [|done]. intros [= <-].
  apply mapM_Some, Forall2_length in Hres. rewrite <-Hres.
  unfold series_ffill, series_reindex.
  by rewrite series_ffill_from_length, length_fmap.
Qed.

(** The rows [compute_nav] assembles once the three preparations have
    succeeded: one per canonical date, each column read off its series. *)
Lemma compute_nav_rows self hp pp us :
  prepare_holdings self = Ok hp →
  prepare_prices self = Ok pp →
  prepare_units self = Ok us →
  ∃ rs, compute_nav self = Ok rs ∧
    length rs = length (all_dates self) ∧
    ∀ (i : nat) row, rs !! i = Some row →
      ∃ d a c dv l u,
        all_dates self !! i = Some d ∧
        calculate_assets hp pp !! i = Some a ∧
        (calculate_cash_and_liabilities self).1.1 !! i = Some c ∧
        cumsum (calculate_cash_and_liabilities self).2 !! i = Some dv ∧
        (calculate_cash_and_liabilities self).1.2 !! i = Some l ∧
        us !! i = Some u ∧
        row = {| NavRow.date := d;
                 NavRow.assets_from_securities := a;
                 NavRow.cash_balance := c;
                 NavRow.cumulative_dividends := dv;
                 NavRow.liabilities := l;
                 NavRow.net_assets := a + c + dv - l;
                 NavRow.units_outstanding := u;
                 NavRow.nav_per_unit := float_div (a + c + dv - l) u |}.
Proof.
  intros Hhp Hpp Hus.
  pose proof (prepare_prices_length _ _ Hpp) as Lpp.
  pose proof (prepare_units_length _ _ Hus) as Lus.
  destruct (prepare_holdings_Ok self) as (hp' & Hhp' & Lhp).
  rewrite Hhp in Hhp'. injection Hhp' as <-.
  pose proof (calculate_assets_length hp pp) as La.
  pose proof (cash_balance_length self) as Lc.
  pose proof (liabilities_length self) as Ll.
  pose proof (dividends_length self) as Ld.
  unfold compute_nav. rewrite Hhp, Hpp. cbn [mbind result_bind].
  destruct (calculate_cash_and_liabilities self) as [[cash liab] divs].
  simpl in Lc, Ll, Ld. rewrite Hus. cbn [mbind result_bind fst snd].
  eexists. split; [done|]. split.
  - rewrite length_fmap, !length_zip_with. unfold cumsum.
    rewrite cumsum_from_length. lia.
  - intros i row Hrow. rewrite list_lookup_fmap in Hrow.
    apply fmap_Some in Hrow
      as ([d [a [c [dv [l [n [u q]]]]]]] & Hzip & ->).
    apply lookup_zip_with_Some in Hzip as (? & ? & [= <- <-] & Hd & Hzip).
    apply lookup_zip_with_Some in Hzip as (? & ? & [= <- <-] & Ha & Hzip).
    apply lookup_zip_with_Some in Hzip as (? & ? & [= <- <-] & Hc & Hzip).
    apply lookup_zip_with_Some in Hzip as (? & ? & [= <- <-] & Hdv & Hzip).
    apply lookup_zip_with_Some in Hzip as (? & ? & [= <- <-] & Hl & Hzip).
    apply lookup_zip_with_Some in Hzip as (? & ? & [= <- <-] & Hn & Hzip).
    apply lookup_zip_with_Some in Hzip as (? & ? & [= <- <-] & Hu & Hq).
    assert (n = a + c + dv - l) as ->.
    { rewrite !lookup_zip_with, Ha, Hc, Hdv, Hl in Hn. simpl in Hn.
      by injection Hn as <-. }
    assert (q = float_div (a + c + dv - l) u) as ->.
    { rewrite !lookup_zip_with, Ha, Hc, Hdv, Hl, Hu in Hq. simpl in Hq.
      by injection Hq as <-. }
    by exists d, a, c, dv, l, u.
Qed.
(** The first preparation that raises ends [compute_nav]. *)
Lemma compute_nav_prices_raise self e :
  prepare_prices self = Raise e → compute_nav self = Raise e.
Proof.
  intros Hpp. unfold compute_nav.
  destruct (prepare_holdings_Ok self) as (hp & -> & _).
  cbn [mbind result_bind]. by rewrite Hpp.
Qed.

Lemma compute_nav_units_raise self pp e :
  prepare_prices self = Ok pp →
  prepare_units self = Raise e →
  compute_nav self = Raise e.
Proof.
  intros Hpp Hus. unfold compute_nav.
  destruct (prepare_holdings_Ok self) as (hp & -> & _).
  cbn [mbind result_bind]. rewrite Hpp. cbn [mbind result_bind].
  destruct (calculate_cash_and_liabilities self) as [[? ?] ?].
  by rewrite Hus.
Qed.
End assembly.

(** ** Labels *)

Section strings.
Local Open Scope string_scope.

Lemma prefix_app pat s :
  String.prefix pat s = true ↔ ∃ b, s = pat +:+ b.
Proof.
  revert s. induction pat as [|a pat IH]; intros s.
  - split; [by exists s|]. by destruct s.
  - destruct s as [|a' s].
    + split; [done|]. intros [b Hb]. discriminate Hb.
    + cbn [String.prefix].
      destruct (Ascii.ascii_dec a a') as [<-|Hne].
      * rewrite IH. split.
        -- intros [b ->]. by exists b.
        -- intros [b Hb]. injection Hb as ->. by exists b.
      * split; [done|]. intros [b Hb]. injection Hb as ? _. done.
Qed.

(** [contains pat s] holds exactly when [pat] occurs in [s]. *)
Lemma contains_occurs pat s :
  contains pat s = true ↔ ∃ a b, s = a +:+ pat +:+ b.
Proof.
  induction s as [|x s IH]; cbn [contains]; rewrite orb_true_iff, prefix_app.
  - split.
    + intros [[b Hb]|?]; [|done]. by exists "", b.
    + intros (a & b & Hab). left. destruct a; [|discriminate Hab].
      by exists b.
  - rewrite IH. split.
    + intros [[b Hb]|(a & b & ->)]; [by exists "", b|].
      by exists (String x a), b.
    + intros ([|y a] & b & Hab); [left; by exists b|].
      right. injection Hab as -> ->. by exists a, b.
Qed.
End strings.

(** [type_contains] reads the label lower-cased: it holds exactly when the
    pattern occurs in the lower-cased label of the record. *)
Lemma type_contains_occurs pat r :
  type_contains pat r = true ↔
  ∃ s a b, CashFlow.type r = Some s ∧ lower s = (a +:+ pat +:+ b)%string.
Proof.
  unfold type_contains. destruct (CashFlow.type r) as [s|].
  - rewrite contains_occurs. split.
    + intros (a & b & Hab). by exists s, a, b.
    + intros (s' & a & b & [= <-] & Hab). by exists a, b.
  - split; [done|]. by intros (s & a & b & ? & _).
Qed.

(** ** Order, division and duplicate keys *)

Section misc.
Local Open Scope Qc_scope.




Lemma duplicate_price_keys (p : list Price.t) (i j : nat) r1 r2 :
  i ≠ j → p !! i = Some r1 → p !! j = Some r2 →
  Price.date r1 = Price.date r2 → Price.ticker r1 = Price.ticker r2 →
  ¬ NoDup ((λ r, (Price.date r, Price.ticker r)) <$> p).
Proof.
  intros Hij H1 H2 Hdate Hticker Hnodup.
  apply Hij, (proj1 (NoDup_alt _) Hnodup i j (Price.date r1, Price.ticker r1)).
  - by rewrite list_lookup_fmap, H1.
  - rewrite list_lookup_fmap, H2. simpl. by rewrite Hdate, Hticker.
Qed.

Lemma scenario_load_data :
  load_data scenario_holdings scenario_prices scenario_cashflows
    scenario_units = Ok scenario_calculator.
Proof. reflexivity. Qed.
End misc.

(** Closes a goal between concrete values that hold rationals: the
    numbers are compared by their canonical fractions. *)
Ltac qc_compute :=
  vm_compute;
  repeat match goal with
         | |- ?x = ?x => reflexivity
         | |- @eq Qc _ _ => apply Qc_is_canon; reflexivity
         | |- _ => progress f_equal
         end.

(** ** The properties of the specification *)

(** C1: on the worked scenario the pipeline produces exactly two rows:
    2024-01-01 with 1000 of securities, 1000 of cash, net assets 2000 and a
    NAV per unit of 20; 2024-01-02 with 1200 of securities (the position of
    100 carried forward, priced 12), 1000 of cash, net assets 2200, 100
    units carried forward and a NAV per unit of 22. *)
Theorem scenario_two_rows :
  main scenario_holdings scenario_prices scenario_cashflows scenario_units =
  Ok [ {| NavRow.date := jan1;
          NavRow.assets_from_securities := Qc_of_Z 1000;
          NavRow.cash_balance := Qc_of_Z 1000;
          NavRow.cumulative_dividends := Qc_of_Z 0;
          NavRow.liabilities := Qc_of_Z 0;
          NavRow.net_assets := Qc_of_Z 2000;
          NavRow.units_outstanding := Qc_of_Z 100;
          NavRow.nav_per_unit := Fin (Qc_of_Z 20) |};
       {| NavRow.date := jan2;
          NavRow.assets_from_securities := Qc_of_Z 1200;
          NavRow.cash_balance := Qc_of_Z 1000;
          NavRow.cumulative_dividends := Qc_of_Z 0;
          NavRow.liabilities := Qc_of_Z 0;
          NavRow.net_assets := Qc_of_Z 2200;
          NavRow.units_outstanding := Qc_of_Z 100;
          NavRow.nav_per_unit := Fin (Qc_of_Z 22) |} ].
Proof. qc_compute. Qed.

Section matrix_properties.
Local Open Scope Z_scope.




End matrix_properties.

Section cash_properties.
Local Open Scope Qc_scope.


End cash_properties.

Section units_properties.
Local Open Scope Z_scope.



End units_properties.

Section ledger_properties.
Local Open Scope Qc_scope.








End ledger_properties.

Section failure_properties.
Local Open Scope Z_scope.

(** C9: when any of the four input collections has no record, the run
    fails while the data is loaded, before any date range is derived, and
    produces nothing.  The failure is the one line 36 meets on the frame
    without rows. *)
Theorem empty_input_fails h p c u :
  h = [] ∨ p = [] ∨ c = [] ∨ u = [] →
  load_data h p c u = Raise dt_accessor_error ∧
  main h p c u = Raise dt_accessor_error.
Proof.
  intros Hempty.
  assert (load_data h p c u = Raise dt_accessor_error) as Hload.
  { unfold load_data, normalize.
    destruct h as [|rh h]; [done|]. destruct p as [|rp p]; [done|].
    destruct c as [|rc c]; [done|]. destruct u as [|ru u]; [done|].
    by destruct Hempty as [?|[?|[?|?]]]. }
  split; [done|]. unfold main. by rewrite Hload.
Qed.

Lemma empty_input_fails_witness :
  main scenario_holdings [] scenario_cashflows scenario_units
  = Raise dt_accessor_error.
Proof.
  apply (empty_input_fails scenario_holdings [] scenario_cashflows
           scenario_units).
  right. left. reflexivity.
Defined.

(** C10: when two price records carry the same (date, ticker),
    [prepare_prices] raises, and so does [compute_nav]; whatever the other
    inputs, the run ends in an exception and produces no row. *)
Theorem duplicate_prices_raise (p : list Price.t) (i j : nat) r1 r2 :
  i ≠ j → p !! i = Some r1 → p !! j = Some r2 →
  Price.date r1 = Price.date r2 → Price.ticker r1 = Price.ticker r2 →
  (∀ self, prices self = p →
     prepare_prices self = Raise duplicate_entries_error ∧
     compute_nav self = Raise duplicate_entries_error) ∧
  (∀ h c u, ∃ e, main h p c u = Raise e).
Proof.
  intros Hij H1 H2 Hdate Hticker.
  pose proof (duplicate_price_keys p i j r1 r2 Hij H1 H2 Hdate Hticker) as Hdup.
  assert (∀ self, prices self = p →
     prepare_prices self = Raise duplicate_entries_error ∧
     compute_nav self = Raise duplicate_entries_error) as Hself.
  { intros self Hp. rewrite <-Hp in Hdup.
    pose proof (prepare_prices_duplicates self Hdup) as Hpp.
    split; [done|]. by apply compute_nav_prices_raise. }
  split; [done|]. intros h c u. unfold main.
  destruct (load_data h p c u) as [self|e] eqn:Hload; [|by exists e].
  cbn [mbind result_bind].
  destruct (load_data_inv _ _ _ _ _ Hload) as (_ & Hp & _).
  exists duplicate_entries_error. by apply Hself.
Qed.

Lemma duplicate_prices_raise_witness :
  main scenario_holdings duplicate_prices scenario_cashflows scenario_units
  = Raise duplicate_entries_error.
Proof.
  destruct (duplicate_prices_raise duplicate_prices 0 1
              {| Price.date := jan1; Price.ticker := "AAA";
                 Price.close := Qc_of_Z 10 |}
              {| Price.date := jan1; Price.ticker := "AAA";
                 Price.close := Qc_of_Z 11 |})
    as [Hself _]; [lia | reflexivity..|].
  destruct (Hself {| holdings := scenario_holdings; prices := duplicate_prices;
                     cashflows := scenario_cashflows; units := scenario_units;
                     all_dates := [jan1] |} eq_refl) as [_ Hnav].
  exact Hnav.
Defined.
End failure_properties.

(** ** Further properties of the pipeline *)

Section outcome.
Local Open Scope Z_scope.

Lemma load_data_nonempty h p c u :
  h ≠ [] → p ≠ [] → c ≠ [] → u ≠ [] → ∃ self, load_data h p c u = Ok self.
Proof.
  intros Hh Hp Hc Hu. unfold load_data, normalize.
  rewrite !decide_False by (by intros ?%fmap_nil_inv).
  cbn [mbind result_bind].
  destruct (series_min_is_Some (Holding.date <$> h)) as [a1 ->];
    [by intros ?%fmap_nil_inv|].
  destruct (series_min_is_Some (Price.date <$> p)) as [a2 ->];
    [by intros ?%fmap_nil_inv|].
  destruct (series_min_is_Some (CashFlow.date <$> c)) as [a3 ->];
    [by intros ?%fmap_nil_inv|].
  destruct (series_min_is_Some (Units.date <$> u)) as [a4 ->];
    [by intros ?%fmap_nil_inv|].
  destruct (series_max_is_Some (Holding.date <$> h)) as [b1 ->];
    [by intros ?%fmap_nil_inv|].
  destruct (series_max_is_Some (Price.date <$> p)) as [b2 ->];
    [by intros ?%fmap_nil_inv|].
  destruct (series_max_is_Some (CashFlow.date <$> c)) as [b3 ->];
    [by intros ?%fmap_nil_inv|].
  destruct (series_max_is_Some (Units.date <$> u)) as [b4 ->];
    [by intros ?%fmap_nil_inv|].
  pose proof (py_min_Some a1 [a2; a3; a4]) as Hmin.
  pose proof (py_max_Some b1 [b2; b3; b4]) as Hmax.
  rewrite !fmap_cons, fmap_nil in Hmin, Hmax. rewrite Hmin, Hmax.
  cbn [date_range mbind result_bind]. by eexists.
Qed.

Lemma compute_nav_Ok_inv self rs :
  compute_nav self = Ok rs →
  ∃ hp pp us,
    prepare_holdings self = Ok hp ∧ prepare_prices self = Ok pp ∧
    prepare_units self = Ok us.
Proof.
  intros Hrs. destruct (prepare_holdings_Ok self) as (hp & Hhp & _).
  destruct (prepare_prices self) as [pp|e] eqn:Hpp.
  - destruct (prepare_units self) as [us|e] eqn:Hus.
    + by exists hp, pp, us.
    + rewrite (compute_nav_units_raise self pp e Hpp Hus) in Hrs.
      discriminate Hrs.
  - rewrite (compute_nav_prices_raise self e Hpp) in Hrs. discriminate Hrs.
Qed.

Lemma compute_nav_dates self rs :
  compute_nav self = Ok rs → NavRow.date <$> rs = all_dates self.
Proof.
  intros Hrs. destruct (compute_nav_Ok_inv self rs Hrs)
    as (hp & pp & us & Hhp & Hpp & Hus).
  destruct (compute_nav_rows self hp pp us Hhp Hpp Hus)
    as (rs' & Hrs' & Hlen & Hrows).
  rewrite Hrs in Hrs'. injection Hrs' as <-.
  apply list_eq. intros i. rewrite list_lookup_fmap.
  destruct (rs !! i) as [row|] eqn:Hrow; simpl.
  - destruct (Hrows i row Hrow) as (d & a & c & dv & l & u & Hd & _ & _ & _ & _ & _ & ->).
    by rewrite Hd.
  - symmetry. apply lookup_ge_None. rewrite <-Hlen. by apply lookup_ge_None.
Qed.

Lemma main_inv h p c u rs :
  main h p c u = Ok rs →
  ∃ self, load_data h p c u = Ok self ∧ compute_nav self = Ok rs.
Proof.
  unfold main. destruct (load_data h p c u) as [self|e]; [|done].
  intros Hrs. by exists self.
Qed.

(** X1: with four non-empty collections [load_data] succeeds; it keeps
    the collections as they are, and the canonical range is made of the
    consecutive days from the earliest to the latest date of any record of
    any of the four, so that every record is dated inside the range. *)
Theorem load_data_range h p c u :
  h ≠ [] → p ≠ [] → c ≠ [] → u ≠ [] →
  ∃ self lo hi,
    load_data h p c u = Ok self ∧
    holdings self = h ∧ prices self = p ∧ cashflows self = c ∧
    units self = u ∧
    all_dates self = seqZ lo (hi - lo + 1) ∧
    lo ∈ record_dates h p c u ∧ hi ∈ record_dates h p c u ∧
    ∀ d, d ∈ record_dates h p c u → lo ≤ d ≤ hi ∧ d ∈ all_dates self.
Proof.
  intros Hh Hp Hc Hu.
  destruct (load_data_nonempty h p c u Hh Hp Hc Hu) as [self Hload].
  destruct (load_data_inv _ _ _ _ _ Hload)
    as (? & ? & ? & ? & _ & _ & _ & _ & lo & hi & Hdates & Hlo & Hhi & Hrange).
  exists self, lo, hi. split_and!; [done..|].
  intros d Hd. specialize (Hrange d Hd). split; [done|].
  rewrite Hdates. apply elem_of_seqZ. lia.
Qed.

Lemma load_data_range_witness :
  ∃ self, load_data scenario_holdings scenario_prices scenario_cashflows
            scenario_units = Ok self ∧
          all_dates self = [jan1; jan2].
Proof.
  destruct (load_data_range scenario_holdings scenario_prices
              scenario_cashflows scenario_units)
    as (self & lo & hi & Hload & _); [done..|].
  exists self. split; [exact Hload|].
  change (load_data scenario_holdings scenario_prices scenario_cashflows
            scenario_units) with (Ok scenario_calculator) in Hload.
  by injection Hload as <-.
Defined.

(** X2: when the run succeeds it returns exactly one row per day of the
    canonical range, in ascending order and without gap: the dates of the
    rows are the consecutive days from the earliest to the latest date of
    the inputs, and their number is latest - earliest + 1. *)
Theorem output_dates h p c u rs :
  main h p c u = Ok rs →
  ∃ lo hi,
    NavRow.date <$> rs = seqZ lo (hi - lo + 1) ∧
    length rs = Z.to_nat (hi - lo + 1) ∧
    lo ∈ record_dates h p c u ∧ hi ∈ record_dates h p c u ∧
    ∀ d, d ∈ record_dates h p c u → lo ≤ d ≤ hi.
Proof.
  intros (self & Hload & Hrs)%main_inv.
  destruct (load_data_inv _ _ _ _ _ Hload)
    as (_ & _ & _ & _ & _ & _ & _ & _ & lo & hi & Hdates & Hlo & Hhi & Hrange).
  pose proof (compute_nav_dates self rs Hrs) as Hd.
  exists lo, hi. split_and!; [by rewrite Hd|..|done|done|done].
  rewrite <-(length_fmap NavRow.date), Hd, Hdates. apply length_seqZ.
Qed.

Lemma output_dates_witness :
  ∃ lo hi, NavRow.date <$> scenario_rows = seqZ lo (hi - lo + 1) ∧
           length scenario_rows = Z.to_nat (hi - lo + 1).
Proof.
  destruct (output_dates scenario_holdings scenario_prices
              scenario_cashflows scenario_units scenario_rows)
    as (lo & hi & Hdates & Hlen & _); [vm_compute; reflexivity|].
  exists lo, hi. split; [exact Hdates|exact Hlen].
Defined.
End outcome.

Section outcome_order.
Local Open Scope Z_scope.




End outcome_order.

Section complete_matrix.
Local Open Scope Qc_scope.

Lemma ffill_rows_keys prev rs r t :
  r ∈ ffill_rows prev rs → is_Some (r !! t) →
  is_Some (prev !! t) ∨ ∃ r', r' ∈ rs ∧ is_Some (r' !! t).
Proof.
  revert prev. induction rs as [|r0 rs IH]; intros prev Hr Ht; simpl in Hr.
  - by apply not_elem_of_nil in Hr.
  - apply elem_of_cons in Hr as [->|Hr].
    + apply lookup_union_is_Some in Ht as [Ht|Ht]; [|by left].
      right. exists r0. split; [apply list_elem_of_here|done].
    + destruct (IH _ Hr Ht) as [Hprev|(r' & Hr' & Ht')].
      * apply lookup_union_is_Some in Hprev as [Hprev|Hprev]; [|by left].
        right. exists r0. split; [apply list_elem_of_here|done].
      * right. exists r'. split; [by apply list_elem_of_further|done].
Qed.

(** X4: whatever the holdings, repeated (date, ticker) pairs included,
    [prepare_holdings] raises nothing, and its matrix is complete: one row
    per canonical date, one column per distinct ticker of the holdings,
    and in every row a resolved cell for exactly those columns. *)
Theorem holdings_matrix_complete self :
  ∃ hp, prepare_holdings self = Ok hp ∧
    columns hp = tickers_of_holdings (holdings self) ∧
    length (rows hp) = length (all_dates self) ∧
    ∀ r t, r ∈ rows hp → (is_Some (r !! t) ↔ t ∈ columns hp).
Proof.
  destruct (holdings_pivot_Ok (holdings self)) as (pv & Hpv & Hcols & Hheld & Hnot).
  unfold prepare_holdings. rewrite Hpv. cbn [mbind result_bind].
  eexists. split; [done|]. simpl. split_and!; [done| |].
  { by rewrite length_fmap, ffill_rows_length, length_fmap. }
  intros r t (r0 & -> & Hr0)%list_elem_of_fmap.
  rewrite lookup_union_is_Some. unfold const_row.
  rewrite lookup_gset_to_gmap. split.
  - intros [Hsome|Hsome].
    + destruct (ffill_rows_keys ∅ _ r0 t Hr0 Hsome) as [Hempty|(r' & Hr' & Ht)].
      * rewrite lookup_empty in Hempty. by destruct Hempty.
      * apply list_elem_of_fmap in Hr' as (d & -> & _).
        rewrite Hcols. destruct Ht as [v Hv].
        destruct (decide (t ∈ tickers_of_holdings (holdings self))) as [|Hout];
          [done|].
        rewrite Hnot in Hv; [done|]. by intros Hh%held_ticker.
    + destruct (decide (t ∈ pv_columns pv)); [done|].
      rewrite option_guard_False in Hsome by done. by destruct Hsome.
  - intros Ht. right. rewrite option_guard_True by done. by eexists.
Qed.
End complete_matrix.

Section price_matrix_properties.
Local Open Scope Z_scope.

Lemma prepare_prices_Ok_inv self pp :
  prepare_prices self = Ok pp →
  NoDup ((λ r, (Price.date r, Price.ticker r)) <$> prices self).
Proof.
  intros Hpp.
  destruct (decide (NoDup ((λ r, (Price.date r, Price.ticker r))
                             <$> prices self))) as [|Hdup]; [done|].
  apply prepare_prices_duplicates in Hdup. congruence.
Qed.

(** Without a repeated key, the close found for the key of a record is
    the close of that record. *)
Lemma close_on_record (p : list Price.t) r :
  NoDup ((λ r, (Price.date r, Price.ticker r)) <$> p) → r ∈ p →
  close_on p (Price.date r) (Price.ticker r) = Some (Price.close r).
Proof.
  unfold close_on. induction p as [|r0 p IH]; intros Hnodup Hr.
  - by apply not_elem_of_nil in Hr.
  - rewrite fmap_cons in Hnodup. apply list.NoDup_cons in Hnodup as [Hnotin Hnodup].
    destruct (decide (Price.date r0 = Price.date r ∧
                      Price.ticker r0 = Price.ticker r)) as [[Hd Ht]|Hne].
    + rewrite filter_cons_True by done. simpl.
      apply elem_of_cons in Hr as [->|Hr]; [done|].
      destruct Hnotin. apply list_elem_of_fmap. exists r.
      split; [by rewrite Hd, Ht|done].
    + rewrite filter_cons_False by done.
      apply elem_of_cons in Hr as [->|Hr]; [by destruct Hne|]. by apply IH.
Qed.

(** X5: in the price matrix of [prepare_prices], for every canonical date
    and ticker: when the ticker has a price record on or before the date,
    the cell is the close of the most recent such record; when it has
    none, the cell stays missing (it is not zero-filled).  The columns are
    the distinct tickers of the price records. *)
Theorem prices_forward_fill h p c u self pp (i : nat) d t :
  load_data h p c u = Ok self →
  prepare_prices self = Ok pp →
  all_dates self !! i = Some d →
  columns pp = tickers_of_prices p ∧
  ∃ r, rows pp !! i = Some r ∧
    (∀ rec, rec ∈ p → Price.ticker rec = t → Price.date rec ≤ d →
       (∀ d1, Price.date rec < d1 ≤ d → ¬ priced p d1 t) →
       r !! t = Some (Price.close rec)) ∧
    ((∀ d0, d0 ≤ d → ¬ priced p d0 t) → r !! t = None).
Proof.
  intros Hload Hpp Hd.
  destruct (load_data_inv _ _ _ _ _ Hload) as (_ & Hp & _).
  pose proof (prepare_prices_Ok_inv self pp Hpp) as Hnodup.
  rewrite Hp in Hnodup.
  destruct (prepare_prices_rows _ _ _ _ _ _ _ Hload Hd Hnodup)
    as (pp' & r & Hpp' & Hcols & _ & Hr & Hprice).
  rewrite Hpp in Hpp'. injection Hpp' as <-.
  split; [done|]. exists r. split_and!; [done| |].
  - intros rec Hrec Ht Hle Hgap. rewrite Hprice. unfold price_on.
    assert (latest_date
              (Price.date <$> filter (λ r, Price.ticker r = t) p) d
            = Some (Price.date rec)) as ->.
    { apply latest_date_Some. split_and!; [|done|].
      - apply priced_dates. by exists rec.
      - intros x Hx%priced_dates Hxd.
        destruct (decide (x ≤ Price.date rec)); [done|].
        destruct (Hgap x); [lia|done]. }
    simpl. rewrite <-Ht. by apply close_on_record.
  - intros Hnone. rewrite Hprice. by apply price_on_None.
Qed.

Lemma prices_forward_fill_witness :
  ∃ r, rows scenario_price_matrix !! 1%nat = Some r ∧
       r !! "AAA" = Some (Qc_of_Z 12) ∧ r !! "BBB" = None.
Proof.
  destruct (prices_forward_fill scenario_holdings scenario_prices
              scenario_cashflows scenario_units scenario_calculator
              scenario_price_matrix 1 jan2 "AAA")
    as (_ & r & Hr & Hsome & _);
    [reflexivity | vm_compute; reflexivity | reflexivity |].
  destruct (prices_forward_fill scenario_holdings scenario_prices
              scenario_cashflows scenario_units scenario_calculator
              scenario_price_matrix 1 jan2 "BBB")
    as (_ & r' & Hr' & _ & Hnone);
    [reflexivity | vm_compute; reflexivity | reflexivity |].
  rewrite Hr in Hr'. injection Hr' as <-.
  exists r. split; [exact Hr|]. split.
  - apply (Hsome {| Price.date := jan2; Price.ticker := "AAA";
                    Price.close := Qc_of_Z 12 |}).
    + apply list_elem_of_further, list_elem_of_here.
    + reflexivity.
    + simpl. lia.
    + intros d1 Hd1. simpl in Hd1. lia.
  - apply Hnone. intros d0 _ (rec & Hrec & _ & Ht).
    apply elem_of_cons in Hrec as [->|Hrec]; [discriminate Ht|].
    apply list_elem_of_singleton in Hrec as ->. discriminate Ht.
Defined.
End price_matrix_properties.

Section running_sums.
Local Open Scope Qc_scope.










End running_sums.

Section output_rows.
Local Open Scope Qc_scope.







End output_rows.

Section label_properties.
Local Open Scope string_scope.

Lemma lower_app a b : lower (a +:+ b) = lower a +:+ lower b.
Proof.
  induction a as [|x a IH]; [done|].
  change (String (lower_ascii x) (lower (a +:+ b))
          = String (lower_ascii x) (lower a +:+ lower b)).
  by rewrite IH.
Qed.

Lemma lower_app_inv s u v :
  lower s = u +:+ v → ∃ s1 s2, s = s1 +:+ s2 ∧ lower s1 = u ∧ lower s2 = v.
Proof.
  revert s. induction u as [|x u IH]; intros s Hs.
  - by exists "", s.
  - destruct s as [|y s]; [discriminate Hs|].
    change (String (lower_ascii y) (lower s) = String x (u +:+ v)) in Hs.
    injection Hs as Hx Hs. destruct (IH s Hs) as (s1 & s2 & -> & Hs1 & Hs2).
    exists (String y s1), s2. split_and!; [done| |done].
    simpl. by rewrite Hx, Hs1.
Qed.

(** X10: the classification of a cash-flow record is a case-insensitive
    substring test: the record counts under a pattern exactly when its
    label is present and contains, anywhere, a run of characters that
    lower-cases to the pattern ([fee], [Fee], [FEE] ... for the fee
    filter).  A record without label is never classified. *)
Theorem label_classification pat r :
  type_contains pat r = true ↔
  ∃ a x b, CashFlow.type r = Some (a +:+ x +:+ b) ∧ lower x = pat.
Proof.
  rewrite type_contains_occurs. split.
  - intros (s & a' & b' & Hs & Hlower).
    destruct (lower_app_inv s a' (pat +:+ b') Hlower)
      as (a & s2 & -> & _ & Hs2).
    destruct (lower_app_inv s2 pat b' Hs2) as (x & b & -> & Hx & _).
    by exists a, x, b.
  - intros (a & x & b & Hs & <-).
    exists (a +:+ x +:+ b), (lower a), (lower b). split; [done|].
    by rewrite !lower_app.
Qed.
End label_properties.

Section added_record.
Local Open Scope Qc_scope.





End added_record.

Section record_order.
Local Open Scope Qc_scope.













End record_order.

Section fee_records.
Local Open Scope Qc_scope.




(** X14: liabilities are not carried from one day to the next: on a
    canonical date without any fee-labelled record the liability is 0,
    whatever fees were booked on the days before. *)
Theorem liabilities_not_cumulative self (i : nat) d :
  all_dates self !! i = Some d →
  (∀ r, r ∈ cashflows self → CashFlow.date r = d →
     type_contains "fee" r = false) →
  (calculate_cash_and_liabilities self).1.2 !! i = Some 0.
Proof.
  intros Hd Hnofee. rewrite (liabilities_lookup self i d Hd). f_equal.
  unfold labelled_flow_on. rewrite flow_on_no_record.
  - unfold clip_lower. by rewrite decide_False.
  - intros r [Hfee Hr]%list_elem_of_filter Hdate.
    rewrite (Hnofee r Hr Hdate) in Hfee. by destruct Hfee.
Qed.

Lemma liabilities_not_cumulative_witness :
  (calculate_cash_and_liabilities
     (with_cashflows scenario_calculator [scenario_fee])).1.2 !! 0%nat
  = Some 0.
Proof.
  apply (liabilities_not_cumulative
           (with_cashflows scenario_calculator [scenario_fee]) 0 jan1);
    [reflexivity|].
  intros r Hr%list_elem_of_singleton Hdate. subst r. discriminate Hdate.
Defined.
End fee_records.
